(** * HD2 Porting Assistant: export of originals and sync of duplicates

    A shallow embedding of [hd2_porting_assistant.py]: the naming helpers
    ([is_duplicate], [get_original_name]), the custom-property helpers
    ([get_custom_properties], [apply_custom_properties]) and the two
    operators ([HD2_OT_export_original], [HD2_OT_sync_duplicates]).

    Python strings are lists of Unicode code points, dictionaries are
    finite maps, the host's ordered vertex-group collection is a list of
    group names, and the snapshot file is a finite map of records. *)

From Stdlib Require Import NArith String Ascii Lia DecimalString.
From Stdlib.Floats Require Import SpecFloat.
From stdpp Require Import base option list gmap.

Set Warnings "-register-all,-clear-no-such-hyp".
Local Open Scope nat_scope.

(** ** Strings *)

(** A Python [str]: the sequence of its code points. *)
Abbreviation pystr := (list N).

(** Literals, written as Rocq strings of ASCII characters. *)
Fixpoint py (s : string) : pystr :=
  match s with
  | EmptyString => []
  | String a r => N_of_ascii a :: py r
  end.

Definition FULL_STOP : N := 46.
Definition LINE_FEED : N := 10.

(** The digits 0 to 9 of ASCII: the part of Unicode's category Nd that
    the concrete examples need. *)
Definition ascii_digit (c : N) : bool := ((48 <=? c) && (c <=? 57))%N.

Section Naming.

(** [\d] in a Python 3 [str] pattern is any character of the Unicode
    category Nd; the table is the interpreter's and is a parameter. *)
Variable is_decimal_digit : N -> bool.

(** [$] without [re.MULTILINE]: the end of the string, or just before
    a line feed that is the last character. *)
Definition at_end (rest : pystr) : bool :=
  match rest with
  | [] => true
  | [c] => (c =? LINE_FEED)%N
  | _ => false
  end.

(** The pattern [\.\d{3}$] matched at the head of [s]. *)
Definition matches_at (s : pystr) : bool :=
  match s with
  | c0 :: c1 :: c2 :: c3 :: rest =>
      (c0 =? FULL_STOP)%N && is_decimal_digit c1 && is_decimal_digit c2
      && is_decimal_digit c3 && at_end rest
  | _ => false
  end.

(** [re.search(r"\.\d{3}$", s) is not None]: the start positions are
    tried from left to right. *)
Fixpoint re_search (s : pystr) : bool :=
  match s with
  | [] => false
  | _ :: t => matches_at s || re_search t
  end.

(** [re.sub(r"\.\d{3}$", "", s)]: every non-overlapping match, leftmost
    first, is replaced by the empty string; after a match the scan goes
    on behind its four characters. *)
Fixpoint re_sub (s : pystr) : pystr :=
  match s with
  | [] => []
  | c :: t =>
      if matches_at s
      then match t with
           | _ :: _ :: _ :: rest => re_sub rest
           | _ => []
           end
      else c :: re_sub t
  end.

Definition is_duplicate (name : pystr) : bool := re_search name.

Definition get_original_name (name : pystr) : pystr := re_sub name.

End Naming.

(** ** Data model *)

(** A custom-property value: what the host stores and JSON can carry. *)
Inductive value : Type :=
  | VBool (b : bool)
  | VInt (z : Z)
  | VFloat (f : spec_float)
  | VStr (s : pystr)
  | VList (l : list value)
  | VDict (d : list (pystr * value)).

(** [obj.matrix_world] and the JSON field of the same name: rows of
    floats. *)
Abbreviation matrix := (list (list spec_float)).

(** One entry of [vert.groups]: the index of a vertex group and the
    weight of the vertex in it. *)
Record VertexGroupElement : Type := {
  group : nat;
  weight : spec_float
}.

(** One element of [obj.data.vertices]. *)
Record MeshVertex : Type := {
  index : nat;
  groups_of : list VertexGroupElement
}.

(** A scene object. [vertex_groups] is the host's ordered collection,
    kept as the list of the groups' names: the [index] of a group is its
    position. [id_props] is the store behind [obj.keys()], [obj[key]],
    [obj[key] = v] and [del obj[key]]. *)
Record Object : Type := {
  name : pystr;
  type : pystr;
  matrix_world : matrix;
  vertex_groups : list pystr;
  vertices : list MeshVertex;
  id_props : gmap pystr value
}.

(** One entry of the exported file. The sync reads [custom_properties]
    with [original.get("custom_properties", {})], so that field may be
    missing; the other three are read with [original[...]]. *)
Record EntityRecord : Type := {
  rec_matrix_world : matrix;
  group_order : list pystr;
  groups : gmap pystr (gmap nat spec_float);
  custom_properties : option (gmap pystr value)
}.

(** The content of [vertex_groups_dump.json], keyed by object name. *)
Abbreviation Snapshot := (gmap pystr EntityRecord).

(** The file at [get_export_path()]: missing, or holding a snapshot. *)
Abbreviation ExportFile := (option Snapshot).

Record Context : Type := {
  selected_objects : list Object
}.

Inductive ReportLevel : Type := INFO | WARNING | ERROR.

Abbreviation Report := (ReportLevel * pystr)%type.

(** What the host hands back for an operator call: [execute]'s return
    value, or the refusal when [poll] is false. *)
Inductive OperatorResult : Type := FINISHED | CANCELLED | POLL_FAILED.

Definition set_matrix_world (m : matrix) (obj : Object) : Object :=
  {| name := name obj; type := type obj; matrix_world := m;
     vertex_groups := vertex_groups obj; vertices := vertices obj;
     id_props := id_props obj |}.

Definition set_id_props (p : gmap pystr value) (obj : Object) : Object :=
  {| name := name obj; type := type obj; matrix_world := matrix_world obj;
     vertex_groups := vertex_groups obj; vertices := vertices obj;
     id_props := p |}.

Definition set_groups (vgs : list pystr) (vs : list MeshVertex)
    (obj : Object) : Object :=
  {| name := name obj; type := type obj; matrix_world := matrix_world obj;
     vertex_groups := vgs; vertices := vs; id_props := id_props obj |}.

(** ** Helpers *)

Definition MESH : pystr := py "MESH".

Definition selected_mesh_objects (context : Context) : list Object :=
  filter (fun o => type o = MESH) (selected_objects context).

(** ** Custom properties *)

Definition RNA_UI : pystr := py "_RNA_UI".

(** [list(d.keys())] and [d.items()] of a dictionary. *)
Definition keys {V} (d : gmap pystr V) : list pystr := (map_to_list d).*1.
Definition items {V} (d : gmap pystr V) : list (pystr * V) := map_to_list d.

(** [dict(v)] of the property group under the reserved key: a copy with
    the same entries. *)
Definition dict (v : value) : value := v.

Definition get_custom_properties (obj : gmap pystr value) : gmap pystr value :=
  let props :=
    fold_left
      (fun props key =>
         if decide (key = RNA_UI) then props
         else match obj !! key with
              | Some v => <[key := v]> props
              | None => props
              end)
      (keys obj) ∅ in
  match obj !! RNA_UI with
  | Some ui => <[RNA_UI := dict ui]> props
  | None => props
  end.

(** First loop of [apply_custom_properties]: one step per key of the
    list taken before the loop. *)
Definition remove_step (props : gmap pystr value)
    (obj : gmap pystr value) (key : pystr) : gmap pystr value :=
  if decide (key = RNA_UI) then obj
  else if decide (props !! key = None) then delete key obj
  else obj.

(** Second loop: one step per item of [props]. *)
Definition assign_step (obj : gmap pystr value)
    (item : pystr * value) : gmap pystr value :=
  if decide (item.1 = RNA_UI) then obj
  else <[item.1 := item.2]> obj.

Definition apply_custom_properties (obj props : gmap pystr value)
    : gmap pystr value :=
  let obj := fold_left (remove_step props) (keys obj) obj in
  let obj := fold_left assign_step (items props) obj in
  match props !! RNA_UI with
  | Some ui => <[RNA_UI := ui]> obj
  | None => obj
  end.

(** ** Host operations on the vertex-group collection *)

(** [obj.vertex_groups.get(group_name)]: the index of the first group of
    that name, or nothing. *)
Definition vertex_groups_get (group_name : pystr) (obj : Object) : option nat :=
  fst <$> list_find (fun n => n = group_name) (vertex_groups obj).

(** What removing group [i] does to a vertex: its entry for [i] goes and
    the entries of later groups move down by one. *)
Definition remap_remove (i : nat) (v : MeshVertex) : MeshVertex :=
  {| index := index v;
     groups_of :=
       omap (fun g =>
               if group g =? i then None
               else Some {| group := if i <? group g then pred (group g)
                                     else group g;
                            weight := weight g |})
            (groups_of v) |}.

(** [obj.vertex_groups.remove(vg)] for the group at index [i]. *)
Definition vertex_groups_remove (i : nat) (obj : Object) : Object :=
  set_groups (delete i (vertex_groups obj))
             (remap_remove i <$> vertices obj) obj.

(** The group at index [S j] and its predecessor change places. *)
Definition swap_prev (j : nat) (l : list pystr) : list pystr :=
  match l !! j, l !! S j with
  | Some a, Some b => <[j := b]> (<[S j := a]> l)
  | _, _ => l
  end.

Definition remap_swap (j : nat) (v : MeshVertex) : MeshVertex :=
  {| index := index v;
     groups_of :=
       (fun g => {| group := if group g =? j then S j
                             else if group g =? S j then j
                             else group g;
                    weight := weight g |}) <$> groups_of v |}.

(** [obj.vertex_groups.active_index = i] followed by
    [bpy.ops.object.vertex_group_move(direction='UP')]: the group at
    index [i] moves one place up; the first group stays. *)
Definition vertex_group_move_up (i : nat) (obj : Object) : Object :=
  match i with
  | 0 => obj
  | S j => set_groups (swap_prev j (vertex_groups obj))
                      (remap_swap j <$> vertices obj) obj
  end.

Section Operators.

Variable is_decimal_digit : N -> bool.

(** *** Export originals *)

Definition export_poll (context : Context) : bool :=
  let objs := selected_mesh_objects context in
  match objs with
  | [] => false
  | _ => negb (existsb (fun o => is_duplicate is_decimal_digit (name o)) objs)
  end.

(** The [weights] dictionary built for the group of index [vg_index]. *)
Definition export_weights (obj : Object) (vg_index : nat)
    : gmap nat spec_float :=
  fold_left
    (fun weights vert =>
       fold_left
         (fun weights g =>
            if group g =? vg_index
            then <[index vert := weight g]> weights
            else weights)
         (groups_of vert) weights)
    (vertices obj) ∅.

(** The loop [for vg in obj.vertex_groups] that fills [groups]; [i] is
    [vg.index]. *)
Fixpoint export_groups (obj : Object) (i : nat) (vgs : list pystr)
    (groups : gmap pystr (gmap nat spec_float))
    : gmap pystr (gmap nat spec_float) :=
  match vgs with
  | [] => groups
  | vg_name :: rest =>
      export_groups obj (S i) rest (<[vg_name := export_weights obj i]> groups)
  end.

(** [obj_data] of one loop turn of [HD2_OT_export_original.execute]. *)
Definition export_record (obj : Object) : EntityRecord :=
  {| rec_matrix_world := matrix_world obj;
     group_order := vertex_groups obj;
     groups := export_groups obj 0 (vertex_groups obj) ∅;
     custom_properties := Some (get_custom_properties (id_props obj)) |}.

Definition export_data (objs : list Object) : Snapshot :=
  fold_left (fun data obj => <[name obj := export_record obj]> data) objs ∅.

Definition export_execute (context : Context) (file : ExportFile)
    : OperatorResult * ExportFile * list Report :=
  let data := export_data (selected_mesh_objects context) in
  (FINISHED, Some data, [(INFO, py "Original data exported")]).

(** The host calls [execute] only when [poll] holds. *)
Definition export_original (context : Context) (file : ExportFile)
    : OperatorResult * ExportFile * list Report :=
  if export_poll context then export_execute context file
  else (POLL_FAILED, file, []).

(** *** Sync duplicates *)

Definition sync_poll (context : Context) (file : ExportFile) : bool :=
  let objs := selected_mesh_objects context in
  match objs with
  | [] => false
  | _ =>
      if existsb (fun o => negb (is_duplicate is_decimal_digit (name o))) objs
      then false
      else bool_decide (is_Some file)
  end.

(** [to_remove]: the groups whose name is not in [original_groups],
    each given by its index when the list is taken; [i] is the index of
    the head of [vgs]. *)
Fixpoint to_remove_from (original_groups : gset pystr) (i : nat)
    (vgs : list pystr) : list nat :=
  match vgs with
  | [] => []
  | vg_name :: rest =>
      if decide (vg_name ∈ original_groups)
      then to_remove_from original_groups (S i) rest
      else i :: to_remove_from original_groups (S i) rest
  end.

(** [for vg in to_remove: obj.vertex_groups.remove(vg)]: a group
    collected at index [i] has moved down by the number [removed] of
    groups taken out before it. *)
Fixpoint remove_groups (removed : nat) (to_remove : list nat)
    (obj : Object) : Object :=
  match to_remove with
  | [] => obj
  | i :: rest =>
      remove_groups (S removed) rest (vertex_groups_remove (i - removed) obj)
  end.

(** [while vg.index > target_index: ... vertex_group_move(direction='UP')]
    for the group now at index [i]: every move lowers [vg.index] by
    one. *)
Fixpoint move_to (i target_index : nat) (obj : Object) : Object :=
  match i with
  | 0 => obj
  | S j =>
      if target_index <? i
      then move_to j target_index (vertex_group_move_up i obj)
      else obj
  end.

(** [for target_index, group_name in enumerate(desired_order)], from
    [target_index] on. *)
Fixpoint match_order (target_index : nat) (desired_order : list pystr)
    (obj : Object) : Object :=
  match desired_order with
  | [] => obj
  | group_name :: rest =>
      match vertex_groups_get group_name obj with
      | None => match_order (S target_index) rest obj
      | Some i =>
          match_order (S target_index) rest (move_to i target_index obj)
      end
  end.

(** The body of the loop over the selected objects, once the record
    [original] has been found. *)
Definition sync_object (original : EntityRecord) (obj : Object) : Object :=
  let original_groups := dom (groups original) in
  let desired_order := group_order original in
  let to_remove := to_remove_from original_groups 0 (vertex_groups obj) in
  let obj := remove_groups 0 to_remove obj in
  let obj := match_order 0 desired_order obj in
  let obj := set_matrix_world (rec_matrix_world original) obj in
  set_id_props
    (apply_custom_properties (id_props obj)
       (default ∅ (custom_properties original)))
    obj.

(** The state the loop threads: the objects already visited (in
    order), the view layer's active object, the reports. *)
Record SyncState : Type := {
  synced : list Object;
  active : option pystr;
  reports : list Report
}.

Definition sync_step (original_data : Snapshot) (st : SyncState)
    (obj : Object) : SyncState :=
  let original_name := get_original_name is_decimal_digit (name obj) in
  match original_data !! original_name with
  | None =>
      {| synced := synced st ++ [obj];
         active := active st;
         reports := reports st
                    ++ [(WARNING, py "Original not found for " ++ name obj)] |}
  | Some original =>
      {| synced := synced st ++ [sync_object original obj];
         active := Some (name obj);
         reports := reports st |}
  end.

Definition sync_execute (context : Context) (active0 : option pystr)
    (file : ExportFile) : OperatorResult * SyncState :=
  match file with
  | None =>
      (CANCELLED,
       {| synced := selected_mesh_objects context; active := active0;
          reports := [(ERROR, py "Export file not found")] |})
  | Some original_data =>
      let st :=
        fold_left (sync_step original_data)
          (selected_mesh_objects context)
          {| synced := []; active := active0; reports := [] |} in
      (FINISHED,
       {| synced := synced st; active := active st;
          reports := reports st
                     ++ [(INFO, py "Duplicates synced successfully")] |})
  end.

(** The host calls [execute] only when [poll] holds. *)
Definition sync_duplicates (context : Context) (active0 : option pystr)
    (file : ExportFile) : OperatorResult * SyncState :=
  if sync_poll context file then sync_execute context active0 file
  else (POLL_FAILED,
        {| synced := selected_mesh_objects context; active := active0;
           reports := [] |}).

End Operators.

(** ** The panel *)

(** What [draw] puts into a box: a label, in a row with [alert] set or
    not, or the button of an operator. *)
Inductive UIItem : Type :=
  | Label (text : pystr) (alert : bool)
  | OperatorButton (idname : pystr).

(** [str(n)] of a length, as an f-string writes it. *)
Definition str_of_len (n : nat) : pystr :=
  py (NilEmpty.string_of_uint (Nat.to_uint n)).

Definition has_alert (box : list UIItem) : bool :=
  existsb (fun item => match item with
                       | Label _ alert => alert
                       | OperatorButton _ => false
                       end) box.

Section Panel.

Variable is_decimal_digit : N -> bool.

(** The first box of [HD2_PT_panel.draw]. *)
Definition draw_export_box (context : Context) : list UIItem :=
  let objs := selected_mesh_objects context in
  [Label (py "Export Originals") false]
  ++ match objs with
     | [] => [Label (py "No mesh objects selected") false]
     | _ =>
         [Label (py "Selected objects: " ++ str_of_len (length objs)) false]
         ++ (if existsb (fun o => is_duplicate is_decimal_digit (name o)) objs
             then [Label (py "Duplicates detected! Export blocked.") true]
             else [])
     end
  ++ [OperatorButton (py "hd2.export_original")].

(** The second box; [file] stands for [os.path.exists(get_export_path())]. *)
Definition draw_sync_box (context : Context) (file : ExportFile)
    : list UIItem :=
  let objs := selected_mesh_objects context in
  [Label (py "Sync Duplicates") false]
  ++ match objs with
     | [] => [Label (py "No mesh objects selected") false]
     | _ =>
         [Label (py "Selected objects: " ++ str_of_len (length objs)) false]
         ++ (if existsb
                  (fun o => negb (is_duplicate is_decimal_digit (name o))) objs
             then [Label (py "Original objects detected! Sync blocked.") true]
             else [])
         ++ (if bool_decide (is_Some file) then []
             else [Label (py "Export file not found!") true])
     end
  ++ [OperatorButton (py "hd2.sync_duplicates")].

Definition draw (context : Context) (file : ExportFile)
    : list (list UIItem) :=
  [draw_export_box context; draw_sync_box context file].

End Panel.

(** ** Sample scenes *)

(** A mesh object without vertices, with the given groups and
    properties. *)
Definition sample_object (n : string) (vgs : list string)
    (props : gmap pystr value) : Object :=
  {| name := py n; type := MESH; matrix_world := [];
     vertex_groups := py <$> vgs; vertices := []; id_props := props |}.

(** An original with three groups, and what its export writes. *)
Definition arm : Object := sample_object "Arm" ["Root"; "Mid"; "Tip"]%string ∅.
Definition arm_record : EntityRecord := export_record arm.

(** A duplicate with the three groups out of order and one more. *)
Definition arm_001 : Object :=
  sample_object "Arm.001" ["Tip"; "Root"; "Mid"; "Extra"]%string ∅.

(** A duplicate that lacks the group ["Root"] and has the other two in
    the opposite order. *)
Definition arm_002 : Object := sample_object "Arm.002" ["Tip"; "Mid"]%string ∅.

(** A duplicate whose original was never exported. *)
Definition leg_002 : Object :=
  sample_object "Leg.002" ["Hip"]%string {[ py "speed" := VInt 3 ]}.

(** Metadata of a record and stale metadata of a duplicate. *)
Definition health_ui : value :=
  VDict [(py "health", VDict [(py "min", VInt 0); (py "max", VInt 100)])].
Definition stamina_ui : value :=
  VDict [(py "stamina", VDict [(py "min", VInt 0); (py "max", VInt 5)])].

Definition health_props : gmap pystr value :=
  {[ RNA_UI := health_ui; py "health" := VInt 80 ]}.
Definition stale_props : gmap pystr value :=
  {[ RNA_UI := stamina_ui; py "stamina" := VInt 2; py "health" := VInt 1 ]}.

(** A record as an export without custom properties left it. *)
Definition bare_record : EntityRecord :=
  {| rec_matrix_world := rec_matrix_world arm_record;
     group_order := group_order arm_record;
     groups := groups arm_record;
     custom_properties := None |}.

(** A record whose custom properties carry no metadata. *)
Definition plain_record : EntityRecord :=
  {| rec_matrix_world := rec_matrix_world arm_record;
     group_order := group_order arm_record;
     groups := groups arm_record;
     custom_properties := Some {[ py "health" := VInt 80 ]} |}.

(** Selections: an original with a duplicate, one original, and two
    duplicates of which the first has no exported original. *)
Definition mixed_selection : Context := {| selected_objects := [arm; arm_001] |}.
Definition originals_selection : Context := {| selected_objects := [arm] |}.
Definition duplicates_selection : Context :=
  {| selected_objects := [leg_002; arm_001] |}.

(** The file after the export of [originals_selection]. *)
Definition arm_snapshot : Snapshot := export_data [arm].

(** * Properties *)

(** ** Naming *)

Section NamingFacts.

Variable is_decimal_digit : N -> bool.

(** The line feed is a control character, not a decimal digit. *)
Hypothesis line_feed_not_digit : is_decimal_digit LINE_FEED = false.

Lemma at_end_length rest :
  at_end rest = true -> rest = [] \/ rest = [LINE_FEED].
Proof.
  destruct rest as [|c [|c' rest]]; simpl; intros H; try discriminate.
  - by left.
  - right. apply N.eqb_eq in H. by subst.
Qed.

(** A match takes four characters and leaves nothing, or one line
    feed, behind; its last character is a digit. *)
Lemma matches_at_inv s :
  matches_at is_decimal_digit s = true ->
  exists d1 d2 d3 rest,
    s = FULL_STOP :: d1 :: d2 :: d3 :: rest
    /\ is_decimal_digit d1 = true /\ is_decimal_digit d2 = true
    /\ is_decimal_digit d3 = true
    /\ (rest = [] \/ rest = [LINE_FEED]).
Proof.
  destruct s as [|c0 [|c1 [|c2 [|c3 rest]]]]; simpl; try discriminate.
  rewrite !andb_true_iff. intros [[[[H0 H1] H2] H3] He].
  apply N.eqb_eq in H0. subst c0.
  exists c1, c2, c3, rest. split_and!; auto using at_end_length.
Qed.

Lemma re_sub_no_match s :
  re_search is_decimal_digit s = false -> re_sub is_decimal_digit s = s.
Proof.
  induction s as [|c t IH]; [done|].
  simpl re_search. intros [Hm Ht]%orb_false_iff.
  simpl re_sub. rewrite Hm. f_equal. by apply IH.
Qed.

(** In front of a suffix of one full stop and three digits no earlier
    position matches. *)
Lemma matches_at_before_suffix c base d1 d2 d3 :
  is_decimal_digit d3 = true ->
  matches_at is_decimal_digit (c :: base ++ [FULL_STOP; d1; d2; d3]) = false.
Proof.
  intros Hd3.
  destruct (matches_at is_decimal_digit _) eqn:Hm; [|done].
  apply matches_at_inv in Hm as (e1 & e2 & e3 & rest & Hs & _ & _ & _ & Hrest).
  assert (Hsnoc : c :: base ++ [FULL_STOP; d1; d2; d3]
                  = (c :: base ++ [FULL_STOP; d1; d2]) ++ [d3])
    by (simpl; by rewrite <- app_assoc).
  destruct Hrest as [->| ->].
  - apply (f_equal length) in Hs. simpl in Hs.
    rewrite length_app in Hs. simpl in Hs. lia.
  - rewrite Hsnoc in Hs. apply (f_equal last) in Hs.
    rewrite last_snoc in Hs. simpl in Hs. injection Hs as ->.
    rewrite line_feed_not_digit in Hd3. discriminate.
Qed.

Lemma re_sub_suffix base d1 d2 d3 :
  is_decimal_digit d1 = true -> is_decimal_digit d2 = true ->
  is_decimal_digit d3 = true ->
  re_sub is_decimal_digit (base ++ [FULL_STOP; d1; d2; d3]) = base.
Proof.
  intros H1 H2 H3. induction base as [|c base IH].
  - simpl. rewrite H1, H2, H3. reflexivity.
  - change ((c :: base) ++ [FULL_STOP; d1; d2; d3])
      with (c :: base ++ [FULL_STOP; d1; d2; d3]).
    cbn [re_sub]. rewrite matches_at_before_suffix by done.
    by rewrite IH.
Qed.

(** C2, as the code has it: [get_original_name] takes one suffix off.
    On a name that is no duplicate, or that is a non-duplicate base
    followed by one suffix (a full stop and three digits), stripping is
    idempotent and its result is not a duplicate. *)
Theorem get_original_name_single_suffix (n : pystr) :
  (is_duplicate is_decimal_digit n = false
   \/ exists base d1 d2 d3,
        n = base ++ [FULL_STOP; d1; d2; d3]
        /\ is_decimal_digit d1 = true /\ is_decimal_digit d2 = true
        /\ is_decimal_digit d3 = true
        /\ is_duplicate is_decimal_digit base = false) ->
  get_original_name is_decimal_digit (get_original_name is_decimal_digit n)
    = get_original_name is_decimal_digit n
  /\ is_duplicate is_decimal_digit (get_original_name is_decimal_digit n)
     = false.
Proof.
  unfold get_original_name, is_duplicate.
  intros [Hn | (base & d1 & d2 & d3 & -> & H1 & H2 & H3 & Hb)].
  - by rewrite !(re_sub_no_match n Hn).
  - rewrite re_sub_suffix by done. by rewrite (re_sub_no_match base Hb).
Qed.

End NamingFacts.

(** C2 at ["Arm.001"], whose base ["Arm"] is no duplicate. *)
Lemma get_original_name_single_suffix_witness :
  get_original_name ascii_digit (get_original_name ascii_digit (py "Arm.001"))
    = get_original_name ascii_digit (py "Arm.001")
  /\ is_duplicate ascii_digit (get_original_name ascii_digit (py "Arm.001"))
     = false.
Proof.
  apply (get_original_name_single_suffix ascii_digit); [reflexivity|].
  right. exists (py "Arm"), 48%N, 48%N, 49%N. repeat split; reflexivity.
Defined.

(** C2 as the spec words it fails on a name with two suffixes:
    ["a.001.002"] is stripped to ["a.001"], which is a duplicate and is
    stripped again to ["a"]. *)
Lemma get_original_name_two_suffixes :
  ~ (forall n : pystr,
       get_original_name ascii_digit (get_original_name ascii_digit n)
         = get_original_name ascii_digit n
       /\ is_duplicate ascii_digit (get_original_name ascii_digit n) = false).
Proof.
  intros H. destruct (H (py "a.001.002")) as [_ Hdup].
  vm_compute in Hdup. discriminate.
Qed.

(** ** Custom properties *)

Section PropertyOverlay.

Implicit Types (obj props : gmap pystr value) (k key : pystr).

Lemma remove_loop_lookup props ks obj k :
  fold_left (remove_step props) ks obj !! k
  = if decide (k ∈ ks /\ k <> RNA_UI /\ props !! k = None)
    then None else obj !! k.
Proof.
  revert obj. induction ks as [|key ks IH]; intros obj; cbn [fold_left].
  - case_decide as H; [|done]. destruct H as [H _]. by apply elem_of_nil in H.
  - rewrite IH. unfold remove_step.
    assert (Hstep :
      (if decide (key = RNA_UI) then obj
       else if decide (props !! key = None) then delete key obj else obj) !! k
      = if decide (k = key /\ k <> RNA_UI /\ props !! k = None)
        then None else obj !! k).
    { destruct (decide (k = key)) as [->|Hne].
      - destruct (decide (key = RNA_UI)) as [Hr|Hr];
          [by rewrite decide_False by naive_solver|].
        destruct (decide (props !! key = None)) as [Hp|Hp].
        + rewrite decide_True by done. apply lookup_delete_eq.
        + by rewrite decide_False by naive_solver.
      - rewrite (decide_False (P := k = key /\ _)) by naive_solver.
        destruct (decide (key = RNA_UI)); [done|].
        destruct (decide (props !! key = None)); [|done].
        by apply lookup_delete_ne. }
    rewrite Hstep. clear Hstep.
    assert (Hin : k ∈ key :: ks <-> k = key \/ k ∈ ks) by apply elem_of_cons.
    destruct (decide (k ∈ ks /\ k <> RNA_UI /\ props !! k = None)) as [H1|H1],
      (decide (k = key /\ k <> RNA_UI /\ props !! k = None)) as [H2|H2],
      (decide (k ∈ key :: ks /\ k <> RNA_UI /\ props !! k = None)) as [H3|H3];
      try done; exfalso; naive_solver.
Qed.

Lemma assign_loop_lookup (its : list (pystr * value)) obj k :
  NoDup its.*1 ->
  fold_left assign_step its obj !! k
  = if decide (k = RNA_UI) then obj !! k
    else match (list_to_map its : gmap pystr value) !! k with
         | Some v => Some v
         | None => obj !! k
         end.
Proof.
  revert obj. induction its as [|[key v] its IH]; intros obj Hnd; simpl.
  - rewrite lookup_empty. by case_decide.
  - apply NoDup_cons in Hnd as [Hfresh Hnd]. rewrite IH by done.
    unfold assign_step; simpl.
    case_decide as Hk; [subst k|].
    + case_decide; [done|]. by rewrite lookup_insert_ne.
    + destruct (decide (key = k)) as [->|Hne].
      * rewrite lookup_insert_eq.
        apply not_elem_of_list_to_map_1 in Hfresh. simpl in Hfresh.
        rewrite Hfresh.
        case_decide; [done|]. by rewrite lookup_insert_eq.
      * rewrite (lookup_insert_ne _ key k) by done.
        destruct (list_to_map its !! k); [done|].
        case_decide; [done|]. by rewrite lookup_insert_ne.
Qed.

(** The store after [apply_custom_properties], key by key. *)
Lemma apply_custom_properties_lookup obj props k :
  apply_custom_properties obj props !! k
  = if decide (k = RNA_UI)
    then match props !! RNA_UI with
         | Some ui => Some ui
         | None => obj !! RNA_UI
         end
    else props !! k.
Proof.
  unfold apply_custom_properties.
  assert (Hloops :
    fold_left assign_step (items props)
      (fold_left (remove_step props) (keys obj) obj) !! k
    = if decide (k = RNA_UI) then obj !! k else props !! k).
  { rewrite assign_loop_lookup by apply NoDup_fst_map_to_list.
    unfold items. rewrite list_to_map_to_list, remove_loop_lookup.
    case_decide as Hk.
    - case_decide as H; [|done]. naive_solver.
    - destruct (props !! k) as [v|] eqn:Hp; [done|].
      case_decide as H; [done|].
      destruct (obj !! k) as [w|] eqn:Ho; [|done].
      exfalso. apply H. split_and!; [|done..].
      unfold keys. apply list_elem_of_fmap. exists (k, w).
      split; [done|]. by apply elem_of_map_to_list. }
  destruct (props !! RNA_UI) as [ui|] eqn:Hui.
  - case_decide as Hk; [subst k|].
    + by rewrite lookup_insert_eq.
    + rewrite lookup_insert_ne by done. by rewrite Hloops.
  - rewrite Hloops. case_decide; by subst.
Qed.

(** C6: the overlay deletes every generic key that the record does not
    have, gives every generic key of the record the record's value, and
    puts the record's value under the reserved key when the record has
    one. *)
Theorem apply_custom_properties_overlay obj props :
  let obj' := apply_custom_properties obj props in
  (forall k, k <> RNA_UI -> props !! k = None -> obj' !! k = None)
  /\ (forall k v, k <> RNA_UI -> props !! k = Some v -> obj' !! k = Some v)
  /\ (forall ui, props !! RNA_UI = Some ui -> obj' !! RNA_UI = Some ui).
Proof.
  cbv zeta. split_and!.
  - intros k Hk Hp. rewrite apply_custom_properties_lookup.
    by rewrite decide_False.
  - intros k v Hk Hp. rewrite apply_custom_properties_lookup.
    by rewrite decide_False.
  - intros ui Hui. rewrite apply_custom_properties_lookup.
    rewrite decide_True by done. by rewrite Hui.
Qed.

(** C7: a second overlay with the same record changes nothing. *)
Theorem apply_custom_properties_idempotent obj props :
  apply_custom_properties (apply_custom_properties obj props) props
  = apply_custom_properties obj props.
Proof.
  apply map_eq. intros k. rewrite !apply_custom_properties_lookup.
  destruct (decide (k = RNA_UI)); [|done].
  by destruct (props !! RNA_UI).
Qed.

End PropertyOverlay.

(** ** The vertex-group collection under removal and moves *)

Section GroupList.

Implicit Types (obj : Object) (l A B C : list pystr) (x y : pystr).

(** Removal and moves touch the groups and the vertices only. *)
Lemma remove_groups_frame removed to_remove obj :
  let obj' := remove_groups removed to_remove obj in
  name obj' = name obj /\ type obj' = type obj
  /\ matrix_world obj' = matrix_world obj /\ id_props obj' = id_props obj.
Proof.
  cbv zeta. revert removed obj.
  induction to_remove as [|i rest IH]; intros removed obj; [done|].
  cbn [remove_groups].
  destruct (IH (S removed) (vertex_groups_remove (i - removed) obj))
    as (-> & -> & -> & ->).
  done.
Qed.

Lemma move_to_frame i target_index obj :
  let obj' := move_to i target_index obj in
  name obj' = name obj /\ type obj' = type obj
  /\ matrix_world obj' = matrix_world obj /\ id_props obj' = id_props obj.
Proof.
  cbv zeta. revert obj. induction i as [|j IH]; intros obj; [done|].
  cbn [move_to]. destruct (target_index <? S j); [|done].
  destruct (IH (vertex_group_move_up (S j) obj)) as (-> & -> & -> & ->).
  done.
Qed.

Lemma match_order_frame target_index desired_order obj :
  let obj' := match_order target_index desired_order obj in
  name obj' = name obj /\ type obj' = type obj
  /\ matrix_world obj' = matrix_world obj /\ id_props obj' = id_props obj.
Proof.
  cbv zeta. revert target_index obj.
  induction desired_order as [|g rest IH]; intros t obj; [done|].
  cbn [match_order]. destruct (vertex_groups_get g obj) as [i|]; [|apply IH].
  destruct (IH (S t) (move_to i t obj)) as (-> & -> & -> & ->).
  apply move_to_frame.
Qed.

(** Pruning keeps exactly the groups whose name is in
    [original_groups], in their order. *)
Lemma remove_groups_filter (original_groups : gset pystr) todo :
  forall pre removed i obj,
    vertex_groups obj = pre ++ todo ->
    length pre + removed = i ->
    vertex_groups
      (remove_groups removed (to_remove_from original_groups i todo) obj)
    = pre ++ filter (fun n => n ∈ original_groups) todo.
Proof.
  induction todo as [|n todo IH]; intros pre removed i obj Hvg Hi.
  - by rewrite filter_nil.
  - cbn [to_remove_from]. rewrite filter_cons.
    destruct (decide (n ∈ original_groups)) as [Hin|Hout].
    + rewrite (IH (pre ++ [n]) removed (S i) obj).
      * by rewrite <- app_assoc.
      * by rewrite Hvg, <- app_assoc.
      * rewrite length_app. simpl. lia.
    + cbn [remove_groups].
      rewrite (IH pre (S removed) (S i)); [done| |lia].
      unfold vertex_groups_remove. simpl. rewrite Hvg.
      replace (i - removed) with (length pre) by lia.
      by rewrite delete_middle.
Qed.

Lemma swap_prev_middle A x y C :
  swap_prev (length A) (A ++ x :: y :: C) = A ++ y :: x :: C.
Proof.
  unfold swap_prev.
  rewrite list_lookup_middle by done.
  replace (A ++ x :: y :: C) with ((A ++ [x]) ++ y :: C)
    by (by rewrite <- app_assoc).
  rewrite list_lookup_middle by (rewrite length_app; simpl; lia).
  rewrite <- app_assoc. simpl.
  rewrite (insert_app_r_alt A _ (S (length A))) by lia.
  rewrite insert_app_r_alt by lia.
  replace (S (length A) - length A) with 1 by lia.
  replace (length A - length A) with 0 by lia.
  done.
Qed.

Lemma swap_prev_cases j l :
  swap_prev j l = l
  \/ exists A x y C,
       l = A ++ x :: y :: C /\ length A = j
       /\ swap_prev j l = A ++ y :: x :: C.
Proof.
  destruct (l !! j) as [x|] eqn:Hx; [|left; unfold swap_prev; by rewrite Hx].
  destruct (l !! S j) as [y|] eqn:Hy;
    [|left; unfold swap_prev; by rewrite Hx, Hy].
  right. exists (take j l), x, y, (drop (S (S j)) l).
  assert (Hl : l = take j l ++ x :: y :: drop (S (S j)) l).
  { rewrite <- (take_drop j l) at 1. f_equal.
    rewrite (drop_S l x j Hx). f_equal. by apply drop_S. }
  assert (Hlen : length (take j l) = j).
  { apply lookup_lt_Some in Hx. rewrite length_take. lia. }
  split_and!; [done..|].
  rewrite Hl at 1. rewrite <- Hlen at 1. apply swap_prev_middle.
Qed.

Lemma swap_prev_perm j l : swap_prev j l ≡ₚ l.
Proof.
  destruct (swap_prev_cases j l) as [->|(A & x & y & C & Hl & _ & ->)];
    [done|].
  rewrite Hl. apply Permutation_app_head, perm_swap.
Qed.

Lemma move_to_perm i target_index obj :
  vertex_groups (move_to i target_index obj) ≡ₚ vertex_groups obj.
Proof.
  revert obj. induction i as [|j IH]; intros obj; [done|].
  cbn [move_to]. destruct (target_index <? S j); [|done].
  rewrite IH. simpl. apply swap_prev_perm.
Qed.

(** Reordering never adds or drops a group. *)
Lemma match_order_perm target_index desired_order obj :
  vertex_groups (match_order target_index desired_order obj)
  ≡ₚ vertex_groups obj.
Proof.
  revert target_index obj.
  induction desired_order as [|g rest IH]; intros t obj; [done|].
  cbn [match_order]. destruct (vertex_groups_get g obj) as [i|]; [|apply IH].
  rewrite IH. apply move_to_perm.
Qed.

End GroupList.

(** ** Matching the order *)

Section MatchOrder.

Implicit Types (obj : Object) (l A B C R : list pystr) (x y : pystr).

Lemma move_to_stay i target_index obj :
  i <= target_index -> move_to i target_index obj = obj.
Proof.
  intros Hle. destruct i as [|j]; [done|].
  cbn [move_to]. by rewrite (proj2 (Nat.ltb_ge _ _)).
Qed.

(** The group at index [length A + length B] is carried over the
    groups [B] to index [length A]; nothing else moves. *)
Lemma move_to_place A B :
  forall x C obj,
    vertex_groups obj = A ++ B ++ x :: C ->
    vertex_groups (move_to (length A + length B) (length A) obj)
    = A ++ x :: B ++ C.
Proof.
  induction B as [|y B IH] using rev_ind; intros x C obj Hvg.
  - rewrite move_to_stay by (simpl; lia). by rewrite Hvg.
  - rewrite length_app. simpl.
    replace (length A + (length B + 1)) with (S (length A + length B)) by lia.
    cbn [move_to].
    rewrite (proj2 (Nat.ltb_lt _ _)) by lia.
    rewrite (IH x (y :: C)).
    + by rewrite <- app_assoc.
    + simpl. rewrite Hvg.
      replace (A ++ (B ++ [y]) ++ x :: C) with ((A ++ B) ++ y :: x :: C)
        by (by rewrite <- !app_assoc).
      rewrite <- length_app, swap_prev_middle.
      by rewrite <- app_assoc.
Qed.

Lemma vertex_groups_get_first obj A x C :
  vertex_groups obj = A ++ x :: C -> x ∉ A ->
  vertex_groups_get x obj = Some (length A).
Proof.
  intros Hvg Hx. unfold vertex_groups_get.
  assert (H : list_find (fun n => n = x) (vertex_groups obj)
              = Some (length A, x)).
  { apply list_find_Some. rewrite Hvg. split_and!.
    - by apply list_lookup_middle.
    - done.
    - intros j y Hj Hlt ->. apply Hx.
      rewrite lookup_app_l in Hj by done.
      by apply list_elem_of_lookup_2 in Hj. }
  by rewrite H.
Qed.

Lemma vertex_groups_get_absent obj x :
  x ∉ vertex_groups obj -> vertex_groups_get x obj = None.
Proof.
  intros Hx. unfold vertex_groups_get.
  assert (H : list_find (fun n => n = x) (vertex_groups obj) = None).
  { apply list_find_None, Forall_forall. by intros y Hy ->. }
  by rewrite H.
Qed.

Lemma filter_not_in_cons R x order :
  x ∉ R ->
  filter (fun n => n ∉ x :: order) R = filter (fun n => n ∉ order) R.
Proof.
  induction R as [|y R IH]; intros Hx; [done|].
  apply not_elem_of_cons in Hx as [Hne Hx].
  rewrite !filter_cons, IH by done.
  destruct (decide (y ∉ x :: order)) as [H1|H1],
    (decide (y ∉ order)) as [H2|H2]; try done; exfalso.
  - apply H2. intros H. apply H1. by right.
  - apply H1. intros [->|H]%elem_of_cons; [done|]. by apply H2.
Qed.

Lemma filter_not_in_nil R : filter (fun n => n ∉ @nil pystr) R = R.
Proof.
  induction R as [|y R IH]; [done|].
  rewrite filter_cons, IH. rewrite decide_True; [done|]. apply not_elem_of_nil.
Qed.

(** When the object has every group of [desired_order], and neither
    list repeats a name, the loop from [target_index = length A] on
    puts [desired_order] behind the [A] groups already in place and
    leaves the other groups behind it, in the order they had. *)
Lemma match_order_from desired_order :
  forall A R obj,
    vertex_groups obj = A ++ R ->
    NoDup (A ++ R) -> NoDup desired_order ->
    (forall x, x ∈ desired_order -> x ∈ R) ->
    vertex_groups (match_order (length A) desired_order obj)
    = A ++ desired_order ++ filter (fun n => n ∉ desired_order) R.
Proof.
  induction desired_order as [|x order IH]; intros A R obj Hvg Hnd Hord Hsub.
  - cbn [match_order]. by rewrite Hvg, filter_not_in_nil.
  - apply NoDup_cons in Hord as [Hx Hord].
    destruct (list_elem_of_split R x) as (B & C & ->);
      [apply Hsub; by left|].
    assert (HA : (x ∉ A) ∧ (x ∉ B) ∧ (x ∉ C)).
    { apply NoDup_app in Hnd as (_ & HAR & HR).
      apply NoDup_app in HR as (_ & HBC & HxC).
      apply NoDup_cons in HxC as [HxC _].
      split_and!; [|intros H; apply (HBC x H); by left|done].
      intros H. apply (HAR x H). apply elem_of_app. right. by left. }
    destruct HA as (HxA & HxB & HxC).
    cbn [match_order].
    rewrite (vertex_groups_get_first obj (A ++ B) x C);
      [|by rewrite Hvg, <- app_assoc
       |by intros [?|?]%elem_of_app].
    rewrite length_app.
    pose proof (move_to_place A B x C obj Hvg) as Hmove.
    replace (S (length A)) with (length (A ++ [x]))
      by (rewrite length_app; simpl; lia).
    rewrite (IH (A ++ [x]) (B ++ C)); [| | |done|].
    + rewrite <- !app_assoc. simpl. do 2 f_equal.
      rewrite !filter_app, filter_cons.
      rewrite decide_False by (intros H; apply H; by left).
      by rewrite !filter_not_in_cons by done.
    + by rewrite Hmove, <- app_assoc.
    + rewrite <- app_assoc. simpl.
      eapply NoDup_Permutation_proper; [|exact Hnd].
      apply Permutation_app_head, Permutation_middle.
    + intros z Hz. specialize (Hsub z (list_elem_of_further _ _ _ Hz)).
      apply elem_of_app in Hsub as [?|[->|?]%elem_of_cons];
        [apply elem_of_app; by left|done|apply elem_of_app; by right].
Qed.

(** The reordering step on an object that has every group of the
    target order: afterwards the groups are [desired_order], followed
    by the groups the order does not name, in their former order. *)
Theorem match_order_all_present desired_order obj :
  NoDup (vertex_groups obj) -> NoDup desired_order ->
  (forall x, x ∈ desired_order -> x ∈ vertex_groups obj) ->
  vertex_groups (match_order 0 desired_order obj)
  = desired_order
    ++ filter (fun n => n ∉ desired_order) (vertex_groups obj).
Proof.
  intros Hnd Hord Hsub.
  apply (match_order_from desired_order [] (vertex_groups obj) obj); done.
Qed.

End MatchOrder.

(** ** Sync of one object *)

Section SyncObject.

Implicit Types (obj : Object) (original : EntityRecord).

Lemma sync_object_id_props original obj :
  id_props (sync_object original obj)
  = apply_custom_properties (id_props obj)
      (default ∅ (custom_properties original)).
Proof.
  unfold sync_object. cbn [id_props set_id_props set_matrix_world].
  destruct (match_order_frame 0 (group_order original)
              (remove_groups 0
                 (to_remove_from (dom (groups original)) 0
                    (vertex_groups obj)) obj)) as (_ & _ & _ & ->).
  destruct (remove_groups_frame 0
              (to_remove_from (dom (groups original)) 0 (vertex_groups obj))
              obj) as (_ & _ & _ & ->).
  done.
Qed.

Lemma sync_object_vertex_groups original obj :
  vertex_groups (sync_object original obj)
  ≡ₚ filter (fun n => n ∈ dom (groups original)) (vertex_groups obj).
Proof.
  unfold sync_object. cbn [vertex_groups set_id_props set_matrix_world].
  rewrite match_order_perm.
  by rewrite (remove_groups_filter _ (vertex_groups obj) [] 0 0 obj).
Qed.

(** C4: for a record whose [group_order] and [groups] name the same
    groups (as every exported record does), the groups of the object
    after the sync are the groups it had whose name is in
    [group_order]: the others are removed and none is created. *)
Theorem sync_object_prunes original obj :
  (list_to_set (group_order original) : gset pystr) = dom (groups original) ->
  forall n,
    n ∈ vertex_groups (sync_object original obj)
    <-> n ∈ vertex_groups obj /\ n ∈ group_order original.
Proof.
  intros Hinv n. rewrite sync_object_vertex_groups.
  rewrite list_elem_of_filter, <- Hinv, elem_of_list_to_set. tauto.
Qed.

(** C9: when the record's custom properties have no reserved key, the
    sync leaves the value under the object's reserved key as it was,
    present or not. *)
Theorem sync_object_keeps_metadata original obj :
  default ∅ (custom_properties original) !! RNA_UI = None ->
  id_props (sync_object original obj) !! RNA_UI = id_props obj !! RNA_UI.
Proof.
  intros Hnone.
  rewrite sync_object_id_props, apply_custom_properties_lookup.
  rewrite decide_True by done. by rewrite Hnone.
Qed.

(** C10: a record without the [custom_properties] field is synced with
    the empty mapping: every key but the reserved one is gone from the
    object, and the reserved key keeps what it had. *)
Theorem sync_object_without_custom_properties original obj :
  custom_properties original = None ->
  id_props (sync_object original obj)
  = apply_custom_properties (id_props obj) ∅
  /\ forall k,
       id_props (sync_object original obj) !! k
       = if decide (k = RNA_UI) then id_props obj !! RNA_UI else None.
Proof.
  intros Hnone. rewrite sync_object_id_props, Hnone.
  change (default ∅ None) with (∅ : gmap pystr value). split; [done|].
  intros k. rewrite apply_custom_properties_lookup.
  by rewrite !lookup_empty.
Qed.

End SyncObject.

(** ** The operators *)

Section OperatorFacts.

Variable is_decimal_digit : N -> bool.

Implicit Types (obj : Object) (context : Context) (file : ExportFile)
  (original_data : Snapshot).

(** *** Export *)

(** C3: with no mesh object selected, or with a duplicate among the
    selected mesh objects, the export does not run: the call is refused
    and the file is what it was. *)
Theorem export_original_refuses context file :
  (selected_objects context = []
   \/ selected_mesh_objects context = []
   \/ exists o, o ∈ selected_mesh_objects context
                /\ is_duplicate is_decimal_digit (name o) = true) ->
  export_original is_decimal_digit context file = (POLL_FAILED, file, []).
Proof.
  intros H. unfold export_original.
  assert (Hpoll : export_poll is_decimal_digit context = false);
    [|by rewrite Hpoll].
  unfold export_poll.
  destruct H as [Hnone | [Hnone | (o & Ho & Hdup)]].
  - unfold selected_mesh_objects. by rewrite Hnone.
  - by rewrite Hnone.
  - destruct (selected_mesh_objects context) as [|o' objs] eqn:Hobjs;
      [done|].
    apply negb_false_iff, existsb_exists. exists o.
    split; [by apply list_elem_of_In|done].
Qed.

Lemma export_groups_dom obj vgs :
  forall i (groups : gmap pystr (gmap nat spec_float)),
    dom (export_groups obj i vgs groups) = dom groups ∪ list_to_set vgs.
Proof.
  induction vgs as [|g vgs IH]; intros i groups; cbn [export_groups].
  - set_solver.
  - rewrite IH, dom_insert_L. set_solver.
Qed.

Lemma export_record_names obj :
  (list_to_set (group_order (export_record obj)) : gset pystr)
  = dom (groups (export_record obj)).
Proof.
  unfold export_record. cbn [group_order groups].
  rewrite export_groups_dom. set_solver.
Qed.

Lemma export_data_lookup objs n r :
  export_data objs !! n = Some r ->
  exists obj, obj ∈ objs /\ r = export_record obj.
Proof.
  unfold export_data.
  assert (H : forall (data : gmap pystr EntityRecord),
    fold_left (fun data obj => <[name obj := export_record obj]> data)
      objs data !! n = Some r ->
    data !! n = Some r \/ exists obj, obj ∈ objs /\ r = export_record obj).
  { induction objs as [|o objs IH]; intros data Hl; [by left|].
    cbn [fold_left] in Hl. apply IH in Hl as [Hl|(obj & Hin & ->)].
    - destruct (decide (name o = n)) as [<-|Hne].
      + rewrite lookup_insert_eq in Hl. injection Hl as <-.
        right. exists o. split; [by left|done].
      + rewrite lookup_insert_ne in Hl by done. by left.
    - right. exists obj. split; [by right|done]. }
  intros Hl. apply H in Hl as [Hl|Hl]; [|done].
  by rewrite lookup_empty in Hl.
Qed.

(** C8: in every record that the export writes, [group_order] and the
    keys of [groups] are the same names, and [group_order] has no name
    twice; the host keeps the group names of an object distinct. *)
Theorem export_record_invariant context n r :
  (forall obj, obj ∈ selected_mesh_objects context ->
               NoDup (vertex_groups obj)) ->
  export_data (selected_mesh_objects context) !! n = Some r ->
  (list_to_set (group_order r) : gset pystr) = dom (groups r)
  /\ NoDup (group_order r).
Proof.
  intros Hhost (obj & Hobj & ->)%export_data_lookup. split.
  - apply export_record_names.
  - by apply Hhost.
Qed.

(** *** Sync *)

(** What the loop does to one object. *)
Lemma sync_loop_synced original_data objs :
  forall st,
    synced (fold_left (sync_step is_decimal_digit original_data) objs st)
    = synced st
      ++ ((fun obj =>
             match original_data
                   !! get_original_name is_decimal_digit (name obj) with
             | None => obj
             | Some original => sync_object original obj
             end) <$> objs).
Proof.
  induction objs as [|o objs IH]; intros st; cbn [fold_left].
  - by rewrite app_nil_r.
  - rewrite IH, fmap_cons. unfold sync_step. cbv beta.
    destruct (original_data !! _); cbn [synced];
      by rewrite <- app_assoc.
Qed.

Lemma sync_loop_reports_mono original_data objs :
  forall st rep,
    rep ∈ reports st ->
    rep ∈ reports (fold_left (sync_step is_decimal_digit original_data)
                     objs st).
Proof.
  induction objs as [|o objs IH]; intros st rep Hrep; [done|].
  cbn [fold_left]. apply IH. unfold sync_step.
  destruct (original_data !! _); cbn [reports]; [done|].
  apply elem_of_app. by left.
Qed.

Lemma sync_loop_warns original_data objs :
  forall st obj,
    obj ∈ objs ->
    original_data !! get_original_name is_decimal_digit (name obj) = None ->
    (WARNING, py "Original not found for " ++ name obj)
    ∈ reports (fold_left (sync_step is_decimal_digit original_data) objs st).
Proof.
  induction objs as [|o objs IH]; intros st obj Hin Hmiss.
  - by apply elem_of_nil in Hin.
  - cbn [fold_left]. apply elem_of_cons in Hin as [->|Hin]; [|by apply IH].
    apply sync_loop_reports_mono. unfold sync_step. rewrite Hmiss.
    cbn [reports]. apply elem_of_app. right. by left.
Qed.

(** C5: an object of the batch whose stripped name is not a key of the
    snapshot gets a warning that names it and comes out of the sync
    exactly as it went in, and the sync still finishes: every object of
    the batch whose record is found is synced with it. *)
Theorem sync_execute_lookup_miss context active0 original_data i obj :
  selected_mesh_objects context !! i = Some obj ->
  original_data !! get_original_name is_decimal_digit (name obj) = None ->
  let run :=
    sync_execute is_decimal_digit context active0 (Some original_data) in
  run.1 = FINISHED
  /\ synced run.2 !! i = Some obj
  /\ (WARNING, py "Original not found for " ++ name obj) ∈ reports run.2
  /\ forall j other original,
       selected_mesh_objects context !! j = Some other ->
       original_data !! get_original_name is_decimal_digit (name other)
         = Some original ->
       synced run.2 !! j = Some (sync_object original other).
Proof.
  intros Hi Hmiss. cbv zeta. unfold sync_execute. cbn [fst snd synced reports].
  rewrite sync_loop_synced. cbn [synced app].
  split_and!.
  - done.
  - rewrite list_lookup_fmap, Hi. simpl. by rewrite Hmiss.
  - apply elem_of_app. left.
    apply sync_loop_warns; [|done]. by eapply list_elem_of_lookup_2.
  - intros j other original Hj Hfound.
    rewrite list_lookup_fmap, Hj. simpl. by rewrite Hfound.
Qed.

End OperatorFacts.

(** ** The sample scenes *)

(** The stacked-suffix name under any digit table that has the ASCII
    digits 0, 1 and 2. *)
Lemma get_original_name_stacked (is_decimal_digit : N -> bool) :
  is_decimal_digit 48%N = true -> is_decimal_digit 49%N = true ->
  is_decimal_digit 50%N = true ->
  get_original_name is_decimal_digit (py "a.001.002") = py "a.001"
  /\ is_duplicate is_decimal_digit (py "a.001") = true.
Proof.
  intros H0 H1 H2. unfold get_original_name, is_duplicate.
  vm_compute. rewrite H0, H1, H2. split; reflexivity.
Qed.

(** An original, exported and synced onto its duplicate: the extra group
    goes and the three others take the exported order. *)
Example sync_arm_001 :
  vertex_groups (sync_object arm_record arm_001)
  = [py "Root"; py "Mid"; py "Tip"].
Proof. vm_compute. reflexivity. Qed.

(** C1: on a duplicate that lacks a group of the order, the loop can
    leave the groups it has out of order. [arm_002] has ["Tip"; "Mid"]
    and the order is ["Root"; "Mid"; "Tip"]: ["Root"] is skipped, ["Mid"]
    is at index 1 and wanted at 1, ["Tip"] is at index 0 and wanted at
    2, so no move is made, while the order restricted to the groups of
    the object is ["Mid"; "Tip"]. *)
Theorem match_order_skipped_group_misplaces :
  group_order arm_record = [py "Root"; py "Mid"; py "Tip"]
  /\ vertex_groups arm_002 = [py "Tip"; py "Mid"]
  /\ filter (fun n => n ∈ vertex_groups arm_002) (group_order arm_record)
     = [py "Mid"; py "Tip"]
  /\ vertex_groups (match_order 0 (group_order arm_record) arm_002)
     = [py "Tip"; py "Mid"]
  /\ vertex_groups (sync_object arm_record arm_002) = [py "Tip"; py "Mid"].
Proof. vm_compute. done. Qed.

(** C3 on a selection with a duplicate in it. *)
Lemma export_original_refuses_witness :
  export_original ascii_digit mixed_selection None = (POLL_FAILED, None, []).
Proof.
  apply export_original_refuses. right. right. exists arm_001. split.
  - apply list_elem_of_In. vm_compute. tauto.
  - reflexivity.
Defined.

(** C4 on the exported record and the duplicate with an extra group. *)
Lemma sync_object_prunes_witness :
  py "Extra" ∈ vertex_groups (sync_object arm_record arm_001)
  <-> py "Extra" ∈ vertex_groups arm_001
      /\ py "Extra" ∈ group_order arm_record.
Proof.
  apply (sync_object_prunes arm_record arm_001). vm_compute. reflexivity.
Defined.

(** C5 on a batch whose first object has no record. *)
Lemma sync_execute_lookup_miss_witness :
  let run := sync_execute ascii_digit duplicates_selection None
               (Some arm_snapshot) in
  run.1 = FINISHED
  /\ synced run.2 !! 0 = Some leg_002
  /\ (WARNING, py "Original not found for " ++ name leg_002) ∈ reports run.2
  /\ forall j other original,
       selected_mesh_objects duplicates_selection !! j = Some other ->
       arm_snapshot !! get_original_name ascii_digit (name other)
         = Some original ->
       synced run.2 !! j = Some (sync_object original other).
Proof.
  apply (sync_execute_lookup_miss ascii_digit duplicates_selection None
           arm_snapshot 0 leg_002); reflexivity.
Defined.

(** C6 on stale properties overlaid with the record's. *)
Lemma apply_custom_properties_overlay_witness :
  apply_custom_properties stale_props health_props !! py "stamina" = None
  /\ apply_custom_properties stale_props health_props !! py "health"
     = Some (VInt 80)
  /\ apply_custom_properties stale_props health_props !! RNA_UI
     = Some health_ui.
Proof.
  destruct (apply_custom_properties_overlay stale_props health_props)
    as (Hdel & Hset & Hui).
  split_and!.
  - apply Hdel; [discriminate|reflexivity].
  - apply Hset; [discriminate|reflexivity].
  - apply Hui. reflexivity.
Defined.

(** C8 on the export of one original. *)
Lemma export_record_invariant_witness :
  (list_to_set (group_order arm_record) : gset pystr) = dom (groups arm_record)
  /\ NoDup (group_order arm_record).
Proof.
  apply (export_record_invariant originals_selection (py "Arm") arm_record).
  - intros obj Hobj.
    change (selected_mesh_objects originals_selection) with [arm] in Hobj.
    apply list_elem_of_singleton in Hobj. subst obj.
    apply (bool_decide_unpack _). vm_compute. exact I.
  - vm_compute. reflexivity.
Defined.

(** C9 on a record without metadata and a duplicate with some. *)
Lemma sync_object_keeps_metadata_witness :
  id_props (sync_object plain_record (sample_object "Arm.003" [] stale_props))
    !! RNA_UI
  = Some stamina_ui.
Proof.
  rewrite (sync_object_keeps_metadata plain_record
             (sample_object "Arm.003" [] stale_props)); reflexivity.
Defined.

(** C10 on a record without custom properties. *)
Lemma sync_object_without_custom_properties_witness :
  id_props (sync_object bare_record (sample_object "Arm.003" [] stale_props))
  = apply_custom_properties stale_props ∅
  /\ forall k,
       id_props
         (sync_object bare_record (sample_object "Arm.003" [] stale_props))
         !! k
       = if decide (k = RNA_UI) then Some stamina_ui else None.
Proof.
  apply (sync_object_without_custom_properties bare_record
           (sample_object "Arm.003" [] stale_props)).
  reflexivity.
Defined.

(** * Further properties *)

(** ** Naming: what a duplicate name is, and what is stripped *)

Section NamingShape.

Variable is_decimal_digit : N -> bool.

Hypothesis line_feed_not_digit : is_decimal_digit LINE_FEED = false.

Lemma matches_at_suffix d1 d2 d3 tail :
  is_decimal_digit d1 = true -> is_decimal_digit d2 = true ->
  is_decimal_digit d3 = true ->
  tail = [] \/ tail = [LINE_FEED] ->
  matches_at is_decimal_digit ([FULL_STOP; d1; d2; d3] ++ tail) = true.
Proof.
  intros H1 H2 H3 [->| ->]; cbn [app matches_at at_end];
    rewrite H1, H2, H3; reflexivity.
Qed.

Lemma re_search_app base s :
  matches_at is_decimal_digit s = true ->
  re_search is_decimal_digit (base ++ s) = true.
Proof.
  intros Hm. induction base as [|c base IH].
  - destruct s as [|c s]; [discriminate|].
    cbn [app re_search]. by rewrite Hm.
  - change ((c :: base) ++ s) with (c :: base ++ s).
    cbn [re_search]. rewrite IH. apply orb_true_r.
Qed.

Lemma re_search_inv s :
  re_search is_decimal_digit s = true ->
  exists base rest,
    s = base ++ rest /\ matches_at is_decimal_digit rest = true.
Proof.
  induction s as [|c s IH]; [discriminate|].
  cbn [re_search]. intros [Hm|Hs]%orb_true_iff.
  - by exists [], (c :: s).
  - destruct (IH Hs) as (base & rest & -> & Hm).
    by exists (c :: base), rest.
Qed.

(** Before a suffix that ends the name, with or without a line feed
    behind it, no position matches. *)
Lemma matches_at_before_tail c base d1 d2 d3 tail :
  is_decimal_digit d3 = true ->
  tail = [] \/ tail = [LINE_FEED] ->
  matches_at is_decimal_digit (c :: base ++ [FULL_STOP; d1; d2; d3] ++ tail)
  = false.
Proof.
  intros Hd3 [->| ->].
  - rewrite app_nil_r. by apply matches_at_before_suffix.
  - destruct (matches_at is_decimal_digit _) eqn:Hm; [|done].
    apply matches_at_inv in Hm as (e1 & e2 & e3 & rest & Hs & _ & _ & _ & Hrest).
    apply (f_equal length) in Hs. cbn [length] in Hs.
    rewrite !length_app in Hs. cbn [length] in Hs.
    destruct Hrest as [->| ->]; cbn [length] in Hs; lia.
Qed.

Lemma re_sub_strips base d1 d2 d3 tail :
  is_decimal_digit d1 = true -> is_decimal_digit d2 = true ->
  is_decimal_digit d3 = true ->
  tail = [] \/ tail = [LINE_FEED] ->
  re_sub is_decimal_digit (base ++ [FULL_STOP; d1; d2; d3] ++ tail)
  = base ++ tail.
Proof.
  intros H1 H2 H3 Htail. induction base as [|c base IH].
  - cbn [app re_sub].
    change (FULL_STOP :: d1 :: d2 :: d3 :: tail)
      with ([FULL_STOP; d1; d2; d3] ++ tail).
    rewrite matches_at_suffix by done.
    destruct Htail as [->| ->]; reflexivity.
  - change ((c :: base) ++ [FULL_STOP; d1; d2; d3] ++ tail)
      with (c :: base ++ [FULL_STOP; d1; d2; d3] ++ tail).
    cbn [re_sub]. rewrite matches_at_before_tail by done.
    by rewrite IH.
Qed.

(** A name is a duplicate exactly when it ends in a full stop and three
    digits, or in these followed by one line feed: the pattern in the
    middle of a name does not count. *)
Theorem is_duplicate_iff_suffix (n : pystr) :
  is_duplicate is_decimal_digit n = true
  <-> exists base d1 d2 d3 tail,
        n = base ++ [FULL_STOP; d1; d2; d3] ++ tail
        /\ is_decimal_digit d1 = true /\ is_decimal_digit d2 = true
        /\ is_decimal_digit d3 = true
        /\ (tail = [] \/ tail = [LINE_FEED]).
Proof.
  unfold is_duplicate. split.
  - intros (base & rest & -> & Hm)%re_search_inv.
    apply matches_at_inv in Hm as (d1 & d2 & d3 & tail & -> & H1 & H2 & H3 & Ht).
    by exists base, d1, d2, d3, tail.
  - intros (base & d1 & d2 & d3 & tail & -> & H1 & H2 & H3 & Ht).
    by apply re_search_app, matches_at_suffix.
Qed.

(** The suffix is taken out and what stands around it stays: the base
    in front and, if there is one, the line feed behind. *)
Theorem get_original_name_strips base d1 d2 d3 tail :
  is_decimal_digit d1 = true -> is_decimal_digit d2 = true ->
  is_decimal_digit d3 = true ->
  tail = [] \/ tail = [LINE_FEED] ->
  get_original_name is_decimal_digit (base ++ [FULL_STOP; d1; d2; d3] ++ tail)
  = base ++ tail.
Proof. apply re_sub_strips. Qed.

(** Stripping leaves a name as it is exactly when the name is not a
    duplicate; a duplicate loses four characters. *)
Theorem get_original_name_fixes_originals (n : pystr) :
  (get_original_name is_decimal_digit n = n
   <-> is_duplicate is_decimal_digit n = false)
  /\ length (get_original_name is_decimal_digit n)
     = if is_duplicate is_decimal_digit n then length n - 4 else length n.
Proof.
  unfold get_original_name.
  destruct (is_duplicate is_decimal_digit n) eqn:Hdup.
  - assert (Hshape := Hdup). unfold is_duplicate in Hshape.
    apply re_search_inv in Hshape as (base & rest & -> & Hm).
    apply matches_at_inv in Hm as (d1 & d2 & d3 & tail & -> & H1 & H2 & H3 & Ht).
    change (FULL_STOP :: d1 :: d2 :: d3 :: tail)
      with ([FULL_STOP; d1; d2; d3] ++ tail) in *.
    rewrite re_sub_strips by done.
    assert (Hlen : length (base ++ tail)
                   = length (base ++ [FULL_STOP; d1; d2; d3] ++ tail) - 4).
    { rewrite !length_app. cbn [length]. lia. }
    split; [|done]. split; [|done].
    intros Heq. apply (f_equal length) in Heq. rewrite Hlen in Heq.
    rewrite !length_app in Heq. cbn [length] in Heq. lia.
  - split; [|by rewrite re_sub_no_match]. split; [done|].
    intros _. by apply re_sub_no_match.
Qed.

End NamingShape.

(** ** Custom properties: what the export reads and the sync writes *)

Section PropertyRoundTrip.

Implicit Types (obj props : gmap pystr value) (k key : pystr).

Lemma copy_loop_lookup obj ks :
  forall (acc : gmap pystr value) k,
    fold_left
      (fun props key =>
         if decide (key = RNA_UI) then props
         else match obj !! key with
              | Some v => <[key := v]> props
              | None => props
              end) ks acc !! k
    = if decide (k ∈ ks /\ k <> RNA_UI /\ is_Some (obj !! k))
      then obj !! k else acc !! k.
Proof.
  induction ks as [|key ks IH]; intros acc k; cbn [fold_left].
  - rewrite decide_False; [done|]. intros [H _]. by apply elem_of_nil in H.
  - rewrite IH.
    destruct (decide (k ∈ ks /\ k <> RNA_UI /\ is_Some (obj !! k)))
      as [(Hin & Hk & Hv)|Hno].
    + rewrite decide_True; [done|]. split_and!; [by right|done..].
    + destruct (decide (key = RNA_UI)) as [Hr|Hr].
      * rewrite decide_False; [done|]. intros ([->|Hin]%elem_of_cons & Hk & Hv);
          [done|]. by apply Hno.
      * destruct (obj !! key) as [v|] eqn:Hkey.
        -- destruct (decide (k = key)) as [->|Hne].
           ++ rewrite lookup_insert_eq, Hkey.
              rewrite decide_True; [done|]. split_and!; [by left|done|by eexists].
           ++ rewrite lookup_insert_ne by done.
              rewrite decide_False; [done|].
              intros ([->|Hin]%elem_of_cons & Hk & Hv); [done|]. by apply Hno.
        -- rewrite decide_False; [done|].
           intros ([->|Hin]%elem_of_cons & Hk & Hv).
           ++ rewrite Hkey in Hv. by destruct Hv.
           ++ by apply Hno.
Qed.

Lemma get_custom_properties_lookup obj k :
  get_custom_properties obj !! k = obj !! k.
Proof.
  unfold get_custom_properties, dict.
  assert (Hloop : forall k', k' <> RNA_UI ->
    fold_left
      (fun props key =>
         if decide (key = RNA_UI) then props
         else match obj !! key with
              | Some v => <[key := v]> props
              | None => props
              end) (keys obj) ∅ !! k' = obj !! k').
  { intros k' Hk'. rewrite copy_loop_lookup, lookup_empty.
    destruct (obj !! k') as [v|] eqn:Hv; [|by case_decide].
    rewrite decide_True; [done|]. split_and!; [|done|by eexists].
    unfold keys. apply list_elem_of_fmap. exists (k', v).
    split; [done|]. by apply elem_of_map_to_list. }
  assert (Hrna :
    fold_left
      (fun props key =>
         if decide (key = RNA_UI) then props
         else match obj !! key with
              | Some v => <[key := v]> props
              | None => props
              end) (keys obj) ∅ !! RNA_UI = None).
  { rewrite copy_loop_lookup, lookup_empty.
    rewrite decide_False; [done|]. by intros (_ & H & _). }
  destruct (decide (k = RNA_UI)) as [->|Hk].
  - destruct (obj !! RNA_UI) as [ui|] eqn:Hui.
    + by rewrite lookup_insert_eq.
    + done.
  - destruct (obj !! RNA_UI) as [ui|] eqn:Hui.
    + rewrite lookup_insert_ne by done. by apply Hloop.
    + by apply Hloop.
Qed.

(** What [get_custom_properties] returns is the whole store of the
    object: every key with its value, the reserved key among them when
    the object has it, and nothing more. *)
Theorem get_custom_properties_all obj :
  get_custom_properties obj = obj.
Proof. apply map_eq. intros k. apply get_custom_properties_lookup. Qed.

(** The properties read off an original and applied to a duplicate make
    the duplicate's store the original's, provided the original has the
    reserved key or the duplicate has not. *)
Theorem apply_exported_properties original duplicate :
  is_Some (original !! RNA_UI) \/ duplicate !! RNA_UI = None ->
  apply_custom_properties duplicate (get_custom_properties original)
  = original.
Proof.
  intros H. apply map_eq. intros k.
  rewrite apply_custom_properties_lookup, !get_custom_properties_lookup.
  destruct (decide (k = RNA_UI)) as [->|Hk]; [|done].
  destruct (original !! RNA_UI) as [ui|] eqn:Hui; [done|].
  destruct H as [[? H]|H]; [done|]. by rewrite H.
Qed.

End PropertyRoundTrip.

(** ** Export: the weights, the groups and the file *)

Section ExportFacts.

Variable is_decimal_digit : N -> bool.

Implicit Types (obj : Object) (vert : MeshVertex) (g : VertexGroupElement)
  (weights : gmap nat spec_float).

Lemma vertex_loop_sound (i : nat) vert gs :
  forall weights u wt,
    fold_left
      (fun weights g =>
         if group g =? i then <[index vert := weight g]> weights
         else weights) gs weights !! u = Some wt ->
    weights !! u = Some wt
    \/ (u = index vert
        /\ exists g, g ∈ gs /\ group g = i /\ weight g = wt).
Proof.
  induction gs as [|g gs IH]; intros weights u wt Hl; [by left|].
  cbn [fold_left] in Hl. apply IH in Hl as [Hl|(-> & g' & Hin & Hg)].
  - destruct (group g =? i) eqn:Hgi; [|by left].
    apply Nat.eqb_eq in Hgi.
    destruct (decide (index vert = u)) as [<-|Hne].
    + rewrite lookup_insert_eq in Hl. injection Hl as <-.
      right. split; [done|]. exists g. split_and!; [by left|done..].
    + rewrite lookup_insert_ne in Hl by done. by left.
  - right. split; [done|]. exists g'. split; [by right|done].
Qed.

Lemma vertex_loop_complete (i : nat) vert gs :
  forall weights u,
    is_Some (weights !! u)
    \/ (u = index vert /\ exists g, g ∈ gs /\ group g = i) ->
    is_Some
      (fold_left
         (fun weights g =>
            if group g =? i then <[index vert := weight g]> weights
            else weights) gs weights !! u).
Proof.
  induction gs as [|g gs IH]; intros weights u H; cbn [fold_left].
  - destruct H as [H|(_ & g & Hin & _)]; [done|]. by apply elem_of_nil in Hin.
  - apply IH. destruct H as [H|(-> & g' & [->|Hin]%elem_of_cons & Hg)].
    + left. destruct (group g =? i); [|done].
      destruct (decide (index vert = u)) as [<-|Hne].
      * rewrite lookup_insert_eq. by eexists.
      * by rewrite lookup_insert_ne.
    + left. rewrite (proj2 (Nat.eqb_eq _ _) Hg), lookup_insert_eq. by eexists.
    + right. split; [done|]. by exists g'.
Qed.

Lemma mesh_loop_sound (i : nat) vs :
  forall weights u wt,
    fold_left
      (fun weights vert =>
         fold_left
           (fun weights g =>
              if group g =? i then <[index vert := weight g]> weights
              else weights) (groups_of vert) weights) vs weights !! u
    = Some wt ->
    weights !! u = Some wt
    \/ exists vert g,
         vert ∈ vs /\ index vert = u /\ g ∈ groups_of vert
         /\ group g = i /\ weight g = wt.
Proof.
  induction vs as [|vert vs IH]; intros weights u wt Hl; [by left|].
  cbn [fold_left] in Hl.
  apply IH in Hl as [Hl|(vert' & g & Hin & H)].
  - apply vertex_loop_sound in Hl as [Hl|(-> & g & Hin & Hg & Hw)];
      [by left|].
    right. exists vert, g. split_and!; [by left|done..].
  - right. exists vert', g. split; [by right|done].
Qed.

Lemma mesh_loop_complete (i : nat) vs :
  forall weights u,
    is_Some (weights !! u)
    \/ (exists vert g,
          vert ∈ vs /\ index vert = u /\ g ∈ groups_of vert /\ group g = i) ->
    is_Some
      (fold_left
         (fun weights vert =>
            fold_left
              (fun weights g =>
                 if group g =? i then <[index vert := weight g]> weights
                 else weights) (groups_of vert) weights) vs weights !! u).
Proof.
  induction vs as [|vert vs IH]; intros weights u H; cbn [fold_left].
  - destruct H as [H|(vert & g & Hin & _)]; [done|].
    by apply elem_of_nil in Hin.
  - apply IH.
    destruct H as [H|(vert' & g & [->|Hin]%elem_of_cons & Hu & Hg & Hi)].
    + left. apply vertex_loop_complete. by left.
    + left. apply vertex_loop_complete. right. split; [done|]. by exists g.
    + right. by exists vert', g.
Qed.

(** The weights written for a group are sparse: a vertex index is a key
    exactly when a vertex of that index has an entry for the group, and
    the value under it is the weight of such an entry. *)
Theorem export_weights_sparse obj (vg_index u : nat) :
  (is_Some (export_weights obj vg_index !! u)
   <-> exists vert g,
         vert ∈ vertices obj /\ index vert = u /\ g ∈ groups_of vert
         /\ group g = vg_index)
  /\ forall wt,
       export_weights obj vg_index !! u = Some wt ->
       exists vert g,
         vert ∈ vertices obj /\ index vert = u /\ g ∈ groups_of vert
         /\ group g = vg_index /\ weight g = wt.
Proof.
  unfold export_weights.
  assert (Hsound : forall wt,
    fold_left
      (fun weights vert =>
         fold_left
           (fun weights g =>
              if group g =? vg_index then <[index vert := weight g]> weights
              else weights) (groups_of vert) weights)
      (vertices obj) ∅ !! u = Some wt ->
    exists vert g,
      vert ∈ vertices obj /\ index vert = u /\ g ∈ groups_of vert
      /\ group g = vg_index /\ weight g = wt).
  { intros wt Hl. apply mesh_loop_sound in Hl as [Hl|Hl]; [|done].
    by rewrite lookup_empty in Hl. }
  split; [split|done].
  - intros [wt Hl]. apply Hsound in Hl as (vert & g & H1 & H2 & H3 & H4 & _).
    by exists vert, g.
  - intros H. apply mesh_loop_complete. by right.
Qed.

Lemma export_groups_skip obj n vgs :
  forall i (groups : gmap pystr (gmap nat spec_float)),
    n ∉ vgs -> export_groups obj i vgs groups !! n = groups !! n.
Proof.
  induction vgs as [|g vgs IH]; intros i groups Hn; [done|].
  apply not_elem_of_cons in Hn as [Hne Hn].
  cbn [export_groups]. rewrite IH by done. by rewrite lookup_insert_ne.
Qed.

Lemma export_groups_lookup obj vgs :
  forall i j n (groups : gmap pystr (gmap nat spec_float)),
    NoDup vgs -> vgs !! j = Some n ->
    export_groups obj i vgs groups !! n = Some (export_weights obj (i + j)).
Proof.
  induction vgs as [|g vgs IH]; intros i j n groups Hnd Hj; [done|].
  apply NoDup_cons in Hnd as [Hg Hnd]. cbn [export_groups].
  destruct j as [|j]; simplify_eq/=.
  - rewrite export_groups_skip by done.
    rewrite lookup_insert_eq. by rewrite Nat.add_0_r.
  - rewrite (IH (S i) j n) by done. do 2 f_equal. lia.
Qed.

(** In an exported record the group at index [i] of the object is a key
    of [groups], and under it are the weights of that index. *)
Theorem export_record_group_weights obj (i : nat) (n : pystr) :
  NoDup (vertex_groups obj) ->
  vertex_groups obj !! i = Some n ->
  group_order (export_record obj) !! i = Some n
  /\ groups (export_record obj) !! n = Some (export_weights obj i).
Proof.
  intros Hnd Hi. split; [done|].
  unfold export_record. cbn [groups].
  by rewrite (export_groups_lookup obj (vertex_groups obj) 0 i n).
Qed.




End ExportFacts.

(** ** Sync of one object: order, fixed point, round trip *)

Section SyncObjectMore.

Implicit Types (obj : Object) (original : EntityRecord)
  (l A B C R : list pystr) (x n : pystr).

Lemma vertex_groups_get_Some n obj i :
  vertex_groups_get n obj = Some i ->
  vertex_groups obj !! i = Some n
  /\ forall j, j < i -> vertex_groups obj !! j <> Some n.
Proof.
  unfold vertex_groups_get.
  destruct (list_find _ _) as [[i' x]|] eqn:Hfind; [|done].
  cbn. intros [= ->]. apply list_find_Some in Hfind as (Hi & -> & Hmin).
  split; [done|]. intros j Hj Hjn. by apply (Hmin j n).
Qed.

Lemma vertex_groups_get_present n obj :
  n ∈ vertex_groups obj -> is_Some (vertex_groups_get n obj).
Proof.
  intros Hin. unfold vertex_groups_get.
  destruct (list_find_elem_of (fun m => m = n) (vertex_groups obj) n Hin eq_refl)
    as [[i x] ->].
  by eexists.
Qed.

Lemma vertex_groups_get_split n obj i :
  vertex_groups_get n obj = Some i ->
  exists A C, vertex_groups obj = A ++ n :: C /\ length A = i /\ n ∉ A.
Proof.
  intros [Hi Hmin]%vertex_groups_get_Some.
  exists (take i (vertex_groups obj)), (drop (S i) (vertex_groups obj)).
  split_and!.
  - by rewrite take_drop_middle.
  - apply lookup_lt_Some in Hi. rewrite length_take. lia.
  - intros (j & Hj)%list_elem_of_lookup_1.
    assert (j < i) by (apply lookup_lt_Some in Hj; rewrite length_take in Hj; lia).
    rewrite lookup_take_lt in Hj by done. by apply (Hmin j).
Qed.

(** Once every name of the first [length placed] turns sits at or in
    front of its turn, the later turns keep it so. *)
Lemma match_order_bound_from rest :
  forall placed obj,
    (forall k n i, placed !! k = Some n ->
                   vertex_groups_get n obj = Some i -> i <= k) ->
    forall k n i,
      (placed ++ rest) !! k = Some n ->
      vertex_groups_get n (match_order (length placed) rest obj) = Some i ->
      i <= k.
Proof.
  induction rest as [|x rest IH]; intros placed obj Hplaced k n i Hk Hget.
  - rewrite app_nil_r in Hk. by apply (Hplaced k n i).
  - cbn [match_order] in Hget.
    replace (S (length placed)) with (length (placed ++ [x])) in Hget
      by (rewrite length_app; simpl; lia).
    replace (placed ++ x :: rest) with ((placed ++ [x]) ++ rest) in Hk
      by (by rewrite <- app_assoc).
    destruct (vertex_groups_get x obj) as [ix|] eqn:Hx.
    + revert Hget. apply IH; [|done]. clear k n i Hk.
      intros k n i Hk Hget.
      destruct (decide (ix <= length placed)) as [Hle|Hgt].
      { rewrite move_to_stay in Hget by done.
        apply lookup_app_Some in Hk as [Hk|[Hlen Hk]];
          [by apply (Hplaced k n i)|].
        apply list_lookup_singleton_Some in Hk as [Hk0 <-].
        rewrite Hx in Hget. injection Hget as <-. lia. }
      destruct (vertex_groups_get_split x obj ix Hx) as (P & C & Hvg & HP & HxP).
      assert (Hmoved :
        vertex_groups (move_to ix (length placed) obj)
        = take (length placed) P ++ x :: drop (length placed) P ++ C).
      { pose proof (move_to_place (take (length placed) P)
                      (drop (length placed) P) x C obj) as Hm.
        rewrite length_take, length_drop in Hm.
        replace (length placed `min` length P + (length P - length placed))
          with ix in Hm by lia.
        replace (length placed `min` length P) with (length placed) in Hm by lia.
        apply Hm. by rewrite app_assoc, take_drop. }
      apply vertex_groups_get_Some in Hget as [Hi Hmin].
      apply lookup_app_Some in Hk as [Hk|[Hlen Hk]].
      * destruct (vertex_groups_get n obj) as [i0|] eqn:Hn.
        -- pose proof (Hplaced k n i0 Hk Hn) as Hi0.
           apply lookup_lt_Some in Hk.
           apply vertex_groups_get_Some in Hn as [Hn _].
           assert (Hsame : vertex_groups (move_to ix (length placed) obj) !! i0
                           = Some n).
           { rewrite Hmoved, lookup_app_l by (rewrite length_take; lia).
             rewrite lookup_take_lt by lia.
             rewrite Hvg, lookup_app_l in Hn by lia. done. }
           destruct (decide (i <= i0)) as [?|Hlt]; [lia|].
           exfalso. apply (Hmin i0); [lia|done].
        -- exfalso.
           assert (Hin : n ∈ vertex_groups obj).
           { rewrite <- (move_to_perm ix (length placed) obj).
             by eapply list_elem_of_lookup_2. }
           apply vertex_groups_get_present in Hin as [? Hin]. congruence.
      * apply list_lookup_singleton_Some in Hk as [Hk0 <-].
        assert (Hfirst :
          vertex_groups_get x (move_to ix (length placed) obj)
          = Some (length (take (length placed) P))).
        { apply (vertex_groups_get_first _ _ x
                   (drop (length placed) P ++ C)); [done|].
          intros (j & Hj & _)%elem_of_take. apply HxP.
          by eapply list_elem_of_lookup_2. }
        rewrite length_take in Hfirst.
        apply vertex_groups_get_Some in Hfirst as [Hf _].
        destruct (decide (i <= length placed `min` length P)) as [?|Hlt]; [lia|].
        exfalso. apply (Hmin (length placed `min` length P)); [lia|done].
    + revert Hget. apply IH; [|done]. clear k n i Hk.
      intros k n i Hk Hget.
      apply lookup_app_Some in Hk as [Hk|[Hlen Hk]];
        [by apply (Hplaced k n i)|].
      apply list_lookup_singleton_Some in Hk as [Hk0 <-]. congruence.
Qed.

(** If every name of the order that the object has sits at or in front
    of its turn, the loop moves nothing. *)
Lemma match_order_settled desired_order :
  forall target_index obj,
    (forall k n i, desired_order !! k = Some n ->
                   vertex_groups_get n obj = Some i -> i <= target_index + k) ->
    match_order target_index desired_order obj = obj.
Proof.
  induction desired_order as [|x rest IH]; intros t obj Hb; [done|].
  cbn [match_order].
  assert (Hrest : forall k n i, rest !! k = Some n ->
                    vertex_groups_get n obj = Some i -> i <= S t + k).
  { intros k n i Hk Hn. specialize (Hb (S k) n i Hk Hn). lia. }
  destruct (vertex_groups_get x obj) as [ix|] eqn:Hx; [|by apply IH].
  rewrite move_to_stay; [by apply IH|].
  specialize (Hb 0 x ix eq_refl Hx). lia.
Qed.

(** The pruning step alone: the groups whose name is in
    [original_groups] stay, in the order they had, and the others go. *)
Theorem remove_groups_keeps_order (original_groups : gset pystr) obj :
  vertex_groups
    (remove_groups 0
       (to_remove_from original_groups 0 (vertex_groups obj)) obj)
  = filter (fun n => n ∈ original_groups) (vertex_groups obj).
Proof. by apply (remove_groups_filter _ (vertex_groups obj) [] 0 0 obj). Qed.

(** The reordering step only permutes: no group is lost, none is made,
    none is doubled. *)
Theorem match_order_permutes desired_order obj :
  vertex_groups (match_order 0 desired_order obj) ≡ₚ vertex_groups obj.
Proof. apply match_order_perm. Qed.

(** What the reordering step gives on every object: after it, a name
    that is turn [t] of the order and is on the object sits at index [t]
    or in front of it. *)
Theorem match_order_index_bound desired_order obj (t i : nat) n :
  desired_order !! t = Some n ->
  vertex_groups_get n (match_order 0 desired_order obj) = Some i ->
  i <= t.
Proof.
  intros Ht Hget.
  by apply (match_order_bound_from desired_order [] obj
              ltac:(intros ? ? ? H; by rewrite lookup_nil in H) t n i).
Qed.

Lemma to_remove_from_none (original_groups : gset pystr) l :
  forall i,
    (forall n, n ∈ l -> n ∈ original_groups) ->
    to_remove_from original_groups i l = [].
Proof.
  induction l as [|x l IH]; intros i Hall; [done|].
  cbn [to_remove_from]. rewrite decide_True by (apply Hall; by left).
  apply IH. intros n Hn. apply Hall. by right.
Qed.



(** A second sync with the same record changes nothing: groups, order,
    vertices, transform and properties are all as the first sync left
    them. *)
Theorem sync_object_idempotent original obj :
  sync_object original (sync_object original obj) = sync_object original obj.
Proof.
  set (obj1 := sync_object original obj).
  assert (Hgroups : forall n, n ∈ vertex_groups obj1 -> n ∈ dom (groups original)).
  { intros n Hn. unfold obj1 in Hn. rewrite sync_object_vertex_groups in Hn.
    by apply list_elem_of_filter in Hn as [Hn _]. }
  assert (Hbound : forall k n i,
    group_order original !! k = Some n ->
    vertex_groups_get n obj1 = Some i -> i <= 0 + k).
  { intros k n i Hk Hget.
    apply (match_order_bound_from (group_order original) []
             (remove_groups 0
                (to_remove_from (dom (groups original)) 0 (vertex_groups obj))
                obj)
             ltac:(intros ? ? ? H; by rewrite lookup_nil in H) k n i Hk).
    exact Hget. }
  assert (Hprops :
    apply_custom_properties (id_props obj1)
      (default ∅ (custom_properties original)) = id_props obj1).
  { unfold obj1. rewrite sync_object_id_props.
    apply map_eq. intros k. rewrite !apply_custom_properties_lookup.
    destruct (decide (k = RNA_UI)); [|done].
    by destruct (default ∅ (custom_properties original) !! RNA_UI). }
  assert (Hmatrix : matrix_world obj1 = rec_matrix_world original) by done.
  clearbody obj1. unfold sync_object.
  rewrite to_remove_from_none by done. cbn [remove_groups].
  rewrite match_order_settled by done.
  cbn [id_props set_matrix_world]. rewrite Hprops.
  destruct obj1. unfold set_id_props, set_matrix_world. cbn in *. by subst.
Qed.

Lemma filter_none (P : pystr -> Prop) `{forall x, Decision (P x)} l :
  (forall x, x ∈ l -> ~ P x) -> filter P l = [].
Proof.
  induction l as [|x l IH]; intros Hall; [done|].
  rewrite filter_cons, decide_False by (apply Hall; by left).
  apply IH. intros y Hy. apply Hall. by right.
Qed.

(** An original exported and synced onto a duplicate that has all its
    groups (each object with distinct group names): the duplicate ends
    with exactly the original's groups in the original's order. *)
Theorem sync_exported_groups (original duplicate : Object) :
  NoDup (vertex_groups original) -> NoDup (vertex_groups duplicate) ->
  (forall n, n ∈ vertex_groups original -> n ∈ vertex_groups duplicate) ->
  vertex_groups (sync_object (export_record original) duplicate)
  = vertex_groups original.
Proof.
  intros Ho Hd Hsub.
  set (og := dom (groups (export_record original))).
  assert (Hog : forall n, n ∈ og <-> n ∈ vertex_groups original).
  { intros n. unfold og. rewrite <- export_record_names.
    apply elem_of_list_to_set. }
  set (pruned := remove_groups 0
                   (to_remove_from og 0 (vertex_groups duplicate)) duplicate).
  assert (Hpruned : vertex_groups pruned
                    = filter (fun n => n ∈ og) (vertex_groups duplicate))
    by apply (remove_groups_filter _ (vertex_groups duplicate) [] 0 0 duplicate
                eq_refl eq_refl).
  change (vertex_groups (sync_object (export_record original) duplicate))
    with (vertex_groups (match_order 0 (vertex_groups original) pruned)).
  assert (Hnd : NoDup (vertex_groups pruned))
    by (rewrite Hpruned; by apply NoDup_filter).
  assert (Hall : forall x, x ∈ vertex_groups original ->
                           x ∈ vertex_groups pruned).
  { intros x Hx. rewrite Hpruned. apply list_elem_of_filter.
    split; [by apply Hog|by apply Hsub]. }
  pose proof (match_order_from (vertex_groups original) []
                (vertex_groups pruned) pruned eq_refl Hnd Ho Hall) as Hm.
  cbn [length app] in Hm. rewrite Hm.
  assert (Hnone : filter (fun n => n ∉ vertex_groups original)
                    (vertex_groups pruned) = []).
  { apply filter_none. intros x Hx Hnot.
    rewrite Hpruned in Hx. apply list_elem_of_filter in Hx as [Hx _].
    by apply Hnot, Hog. }
  by rewrite Hnone, app_nil_r.
Qed.

End SyncObjectMore.

(** ** The operators together *)

Section OperatorsMore.

Variable is_decimal_digit : N -> bool.

Hypothesis line_feed_not_digit : is_decimal_digit LINE_FEED = false.

Implicit Types (obj : Object) (context : Context) (file : ExportFile)
  (original_data : Snapshot).



(** The sync is refused, and nothing is touched, when no mesh object is
    selected, when a selected mesh object is not a duplicate, or when
    the file is missing. *)
Theorem sync_duplicates_refuses context active0 file :
  (selected_mesh_objects context = []
   \/ (exists obj, obj ∈ selected_mesh_objects context
                   /\ is_duplicate is_decimal_digit (name obj) = false)
   \/ file = None) ->
  sync_duplicates is_decimal_digit context active0 file
  = (POLL_FAILED,
     {| synced := selected_mesh_objects context; active := active0;
        reports := [] |}).
Proof.
  intros H. unfold sync_duplicates.
  assert (Hpoll : sync_poll is_decimal_digit context file = false);
    [|by rewrite Hpoll].
  unfold sync_poll.
  destruct (selected_mesh_objects context) as [|o objs] eqn:Hobjs; [done|].
  destruct H as [H | [(obj & Hin & Hdup) | ->]]; [done| |].
  - assert (Hex : existsb
             (fun o => negb (is_duplicate is_decimal_digit (name o)))
             (o :: objs) = true).
    { apply existsb_exists. exists obj.
      split; [by apply list_elem_of_In|by rewrite Hdup]. }
    by rewrite Hex.
  - destruct (existsb _ _); [done|]. apply bool_decide_eq_false.
    by intros [? ?].
Qed.


(** No selection enables both operators. *)
Theorem polls_exclude context file :
  export_poll is_decimal_digit context
  && sync_poll is_decimal_digit context file = false.
Proof.
  unfold export_poll, sync_poll.
  destruct (selected_mesh_objects context) as [|o objs]; [done|].
  cbn [existsb].
  destruct (is_duplicate is_decimal_digit (name o)); cbn; [done|].
  apply andb_false_r.
Qed.


End OperatorsMore.

(** ** The panel and the polls *)

Section PanelFacts.

Variable is_decimal_digit : N -> bool.

(** With a mesh object selected, each box of the panel carries an alert
    exactly when the poll of its operator fails. *)
Theorem draw_alerts_match_polls context file :
  selected_mesh_objects context <> [] ->
  export_poll is_decimal_digit context
  = negb (has_alert (draw_export_box is_decimal_digit context))
  /\ sync_poll is_decimal_digit context file
     = negb (has_alert (draw_sync_box is_decimal_digit context file)).
Proof.
  intros Hne.
  unfold export_poll, sync_poll, draw_export_box, draw_sync_box, has_alert.
  destruct (selected_mesh_objects context) as [|o objs]; [done|].
  rewrite !existsb_app. cbn [existsb orb].
  split.
  - destruct (is_duplicate is_decimal_digit (name o)
              || existsb (fun o => is_duplicate is_decimal_digit (name o)) objs);
      reflexivity.
  - destruct (negb (is_duplicate is_decimal_digit (name o))
              || existsb
                   (fun o => negb (is_duplicate is_decimal_digit (name o)))
                   objs); [reflexivity|].
    destruct (bool_decide (is_Some file)); reflexivity.
Qed.

End PanelFacts.

(** ** The further properties on the sample scenes *)

(** A name that ends in a suffix and a line feed. *)
Lemma get_original_name_strips_witness :
  get_original_name ascii_digit (py "Arm" ++ [FULL_STOP; 48; 48; 49]%N ++ [LINE_FEED])
  = py "Arm" ++ [LINE_FEED].
Proof.
  apply (get_original_name_strips ascii_digit); [reflexivity..|by right].
Defined.

Lemma get_original_name_fixes_originals_witness :
  (get_original_name ascii_digit (py "Arm.001") = py "Arm.001"
   <-> is_duplicate ascii_digit (py "Arm.001") = false)
  /\ length (get_original_name ascii_digit (py "Arm.001"))
     = if is_duplicate ascii_digit (py "Arm.001")
       then length (py "Arm.001") - 4 else length (py "Arm.001").
Proof.
  apply (get_original_name_fixes_originals ascii_digit). reflexivity.
Defined.

Lemma apply_exported_properties_witness :
  apply_custom_properties stale_props (get_custom_properties health_props)
  = health_props.
Proof.
  apply apply_exported_properties. left. exists health_ui. reflexivity.
Defined.

Lemma export_record_group_weights_witness :
  group_order (export_record arm) !! 1 = Some (py "Mid")
  /\ groups (export_record arm) !! py "Mid" = Some (export_weights arm 1).
Proof.
  apply export_record_group_weights; [|reflexivity].
  apply (bool_decide_unpack _). vm_compute. exact I.
Defined.


Lemma match_order_all_present_witness :
  vertex_groups (match_order 0 (group_order arm_record) arm_001)
  = group_order arm_record
    ++ filter (fun n => n ∉ group_order arm_record) (vertex_groups arm_001).
Proof.
  apply match_order_all_present.
  - apply (bool_decide_unpack _). vm_compute. exact I.
  - apply (bool_decide_unpack _). vm_compute. exact I.
  - apply Forall_forall. apply (bool_decide_unpack _). vm_compute. exact I.
Defined.

(** On the duplicate without ["Root"], ["Tip"] is turn 2 of the order
    and sits at index 0. *)
Lemma match_order_index_bound_witness : 0 <= 2.
Proof.
  apply (match_order_index_bound (group_order arm_record) arm_002 2 0
           (py "Tip")); reflexivity.
Defined.

Lemma sync_exported_groups_witness :
  vertex_groups (sync_object (export_record arm) arm_001) = vertex_groups arm.
Proof.
  apply sync_exported_groups.
  - apply (bool_decide_unpack _). vm_compute. exact I.
  - apply (bool_decide_unpack _). vm_compute. exact I.
  - apply Forall_forall. apply (bool_decide_unpack _). vm_compute. exact I.
Defined.

Lemma sync_duplicates_refuses_witness :
  sync_duplicates ascii_digit mixed_selection None (Some arm_snapshot)
  = (POLL_FAILED,
     {| synced := selected_mesh_objects mixed_selection; active := None;
        reports := [] |}).
Proof.
  apply sync_duplicates_refuses. right. left. exists arm. split.
  - apply list_elem_of_In. vm_compute. tauto.
  - reflexivity.
Defined.


Lemma draw_alerts_match_polls_witness :
  export_poll ascii_digit mixed_selection
  = negb (has_alert (draw_export_box ascii_digit mixed_selection))
  /\ sync_poll ascii_digit mixed_selection None
     = negb (has_alert (draw_sync_box ascii_digit mixed_selection None)).
Proof.
  apply draw_alerts_match_polls. discriminate.
Defined.
